(** * atomate2.vasp.file: copying and normalising VASP outputs

    A shallow embedding of [src/atomate2/vasp/file.py]
    ([get_largest_relax_extension] and [copy_vasp_outputs]) and the
    properties of the two functions: of the calls as the module stands, and
    of the lines of their bodies. *)

From Stdlib Require Import String Ascii List Bool Arith NArith Lia Permutation.
Import ListNotations.
Local Open Scope list_scope.
Local Open Scope string_scope.

(** ** Python strings

    A Python [str] is modelled as a Rocq [string]; its characters are the
    code points below 256, among which the decimal digits ([\d], and what
    [int] accepts) are exactly ['0'..'9']. *)

Module Str.

(** [s.startswith(p)] *)
Definition startswith (s p : string) : bool := String.prefix p s.

(** [s[n:]] *)
Fixpoint drop (n : nat) (s : string) : string :=
  match n, s with
  | O, _ => s
  | S _, EmptyString => EmptyString
  | S k, String _ s' => drop k s'
  end.

(** [s.endswith(p)] *)
Definition endswith (s p : string) : bool :=
  (String.length p <=? String.length s)%nat
  && String.eqb (drop (String.length s - String.length p) s) p.

(** [s[:n]] *)
Fixpoint take (n : nat) (s : string) : string :=
  match n, s with
  | O, _ => EmptyString
  | S _, EmptyString => EmptyString
  | S k, String c s' => String c (take k s')
  end.

(** [s[:len(s) - n]] *)
Definition chop (n : nat) (s : string) : string :=
  take (String.length s - n) s.

(** [s.replace(old, new)]: every non-overlapping occurrence of [old],
    scanning from the left.  [skip] counts the characters of an occurrence
    that was just replaced and are still to be passed over.  (Both call
    sites replace a non-empty [old].) *)
Fixpoint replace_from (skip : nat) (old new s : string) : string :=
  match s with
  | EmptyString => EmptyString
  | String c s' =>
      match skip with
      | S k => replace_from k old new s'
      | O =>
          if String.prefix old s
          then new ++ replace_from (String.length old - 1) old new s'
          else String c (replace_from O old new s')
      end
  end.

Definition replace (s old new : string) : string := replace_from O old new s.

Definition is_digit (c : ascii) : bool :=
  (48 <=? nat_of_ascii c)%nat && (nat_of_ascii c <=? 57)%nat.

Fixpoint all_digits (s : string) : bool :=
  match s with
  | EmptyString => true
  | String c s' => is_digit c && all_digits s'
  end.

(** The longest prefix of [s] made of digits: what a greedy [\d*] takes. *)
Fixpoint take_digits (s : string) : string :=
  match s with
  | EmptyString => EmptyString
  | String c s' => if is_digit c then String c (take_digits s') else EmptyString
  end.

Definition digit_value (c : ascii) : N := (N_of_ascii c - 48)%N.

Fixpoint int_from (acc : N) (s : string) : N :=
  match s with
  | EmptyString => acc
  | String c s' => int_from (10 * acc + digit_value c)%N s'
  end.

(** [int(s)] for a string of decimal digits (leading zeros allowed). *)
Definition int (s : string) : N := int_from 0%N s.

End Str.

(** ** Errors

    The exceptions that can leave the two functions. *)

Inductive exn : Type :=
| NameError (name : string)           (* a name that is looked up and not bound *)
| AttributeError                      (* [.group(1)] on the [None] of a failed [re.search] *)
| ValueError                          (* [max] of an empty sequence *)
| FileNotFoundError (msg : string)    (* raised by [copy_vasp_outputs] itself, line 83 *)
| CopyError (pattern : string)        (* [copy_files]: a pattern without a match, strict mode *)
| GunzipError (pattern : string)      (* [gunzip_files]: a pattern without a match, strict mode *)
| RenameError (name : string).        (* [rename_files]: a file to rename is absent, strict mode *)

Inductive result (A : Type) : Type :=
| Ok (a : A)
| Raise (e : exn).
Arguments Ok {A} a.
Arguments Raise {A} e.

(** ** Directories and glob patterns *)

(** A directory is its listing: the files in the order the file client
    lists them, each with its content. *)
Definition content := string.
Definition entry : Type := string * content.
Definition dir := list entry.

Definition names (d : dir) : list string := map fst d.

(** Modelled from the spec: the file client's pattern matching
    ([FileClient.glob] lives in [atomate2.utils.file_client], which is not
    part of the sources at hand).  Section 6 of the specification: "return
    matching entries for a glob-style pattern".  A glob-style pattern is read
    item by item: [*] stands for any run of characters, [?] for any one
    character, [[seq]] for one character among [seq] (a range [a-z]
    included) and [[!seq]] for one character not among [seq]; a [[] that is
    never closed, and every other character, stands for itself. *)
Inductive glob_item : Type :=
| Star
| Any
| Class (negated : bool) (members : string)
| Lit (c : ascii).

(** The members of a character class and what follows its closing bracket,
    read from the text after the opening bracket (and after the [!]); a []]
    in the first place is a member.  [None] when the class is not closed. *)
Fixpoint class_body (first : bool) (s : string) : option (string * string) :=
  match s with
  | EmptyString => None
  | String c s' =>
      if Ascii.eqb c "]" && negb first then Some (EmptyString, s')
      else match class_body false s' with
           | Some (members, rest) => Some (String c members, rest)
           | None => None
           end
  end.

Definition class_of (s : string) : option (bool * string * string) :=
  match s with
  | EmptyString => None
  | String c s' =>
      if Ascii.eqb c "!"
      then option_map (fun mr => (true, fst mr, snd mr)) (class_body true s')
      else option_map (fun mr => (false, fst mr, snd mr)) (class_body true s)
  end.

(** The items of a pattern; each step takes at least one character, so that
    the length of the pattern is fuel enough. *)
Fixpoint glob_items (fuel : nat) (pat : string) : list glob_item :=
  match fuel, pat with
  | O, _ => []
  | _, EmptyString => []
  | S k, String c pat' =>
      if Ascii.eqb c "*" then Star :: glob_items k pat'
      else if Ascii.eqb c "?" then Any :: glob_items k pat'
      else if Ascii.eqb c "["
      then match class_of pat' with
           | Some (negated, members, rest) => Class negated members :: glob_items k rest
           | None => Lit c :: glob_items k pat'
           end
      else Lit c :: glob_items k pat'
  end.

Definition in_range (lo hi c : ascii) : bool :=
  (nat_of_ascii lo <=? nat_of_ascii c)%nat && (nat_of_ascii c <=? nat_of_ascii hi)%nat.

Fixpoint in_class (members : string) (c : ascii) : bool :=
  match members with
  | EmptyString => false
  | String lo members' =>
      match members' with
      | String dash (String hi rest) =>
          if Ascii.eqb dash "-"
          then in_range lo hi c || in_class rest c
          else Ascii.eqb lo c || in_class members' c
      | _ => Ascii.eqb lo c || in_class members' c
      end
  end.

Fixpoint match_items (items : list glob_item) (name : string) : bool :=
  match items with
  | [] => match name with EmptyString => true | _ => false end
  | Star :: items' =>
      (fix star (n : string) : bool :=
         match_items items' n
         || match n with
            | EmptyString => false
            | String _ n' => star n'
            end) name
  | Any :: items' =>
      match name with
      | EmptyString => false
      | String _ name' => match_items items' name'
      end
  | Class negated members :: items' =>
      match name with
      | EmptyString => false
      | String c name' => xorb negated (in_class members c) && match_items items' name'
      end
  | Lit p :: items' =>
      match name with
      | EmptyString => false
      | String c name' => Ascii.eqb p c && match_items items' name'
      end
  end.

Definition fnmatch (pat name : string) : bool :=
  match_items (glob_items (String.length pat) pat) name.

(** Modelled from the spec: [file_client.glob(directory / pattern)], section 6
    "List: given a directory (and optional remote host), return matching
    entries for a glob-style pattern".  The entries come in listing order. *)
Definition glob (pat : string) (d : dir) : list entry :=
  filter (fun e => fnmatch pat (fst e)) d.

(** ** [get_largest_relax_extension] *)

Definition newline : ascii := "010"%char.

(** [re.search(r".relax(\d+)", name)], giving group 1 of the leftmost match:
    the unescaped [.] is any character but a newline, then the literal
    [relax], then a greedy non-empty run of digits. *)
Fixpoint re_search_relax (name : string) : option string :=
  match name with
  | EmptyString => None
  | String c rest =>
      if negb (Ascii.eqb c newline) && String.prefix "relax" rest
      then match Str.take_digits (Str.drop 5 rest) with
           | EmptyString => re_search_relax rest
           | ds => Some ds
           end
      else re_search_relax rest
  end.

(** The list comprehension of line 136: the first file without a match makes
    [re.search] return [None], and [.group(1)] raises. *)
Fixpoint relax_numbers (files : list string) : result (list string) :=
  match files with
  | [] => Ok []
  | f :: fs =>
      match re_search_relax f with
      | None => Raise AttributeError
      | Some ds =>
          match relax_numbers fs with
          | Ok l => Ok (ds :: l)
          | Raise e => Raise e
          end
      end
  end.

(** [max(best :: rest, key=key)]: Python keeps the first item whose key is
    the largest, replacing the candidate only by a strictly larger one. *)
Fixpoint max_from {A : Type} (key : A -> N) (best : A) (rest : list A) : A :=
  match rest with
  | [] => best
  | x :: rest' =>
      if (key best <? key x)%N then max_from key x rest' else max_from key best rest'
  end.

Definition py_max {A : Type} (key : A -> N) (items : list A) : result A :=
  match items with
  | [] => Raise ValueError
  | x :: rest => Ok (max_from key x rest)
  end.

(** Lines 133-138, on the names of the files that the glob of line 132
    returned. *)
Definition largest_relax_extension_in (relax_files : list string) : result string :=
  if (List.length relax_files =? 0)%nat then Ok ""
  else
    match relax_numbers relax_files with
    | Raise e => Raise e
    | Ok numbers =>
        match py_max Str.int numbers with
        | Raise e => Raise e
        | Ok max_relax => Ok (".relax" ++ max_relax)
        end
    end.

(** *** The names of the module

    [typing.TYPE_CHECKING] is [False] whenever the module is run; it is
    [True] only for a static type checker, which runs nothing. *)
Definition TYPE_CHECKING : bool := false.

(** The global names of the module, in the order lines 3-20 and the two
    [def]s bind them.  The imports of lines 13, 14 and 16 stand under
    [if typing.TYPE_CHECKING:] (line 12); the annotations that use them are
    never evaluated ([from __future__ import annotations], line 3). *)
Definition module_globals : list string :=
  (["annotations"; "logging"; "re"; "typing"; "copy_files"; "gunzip_files";
    "rename_files"; "auto_fileclient"]
   ++ (if TYPE_CHECKING
       then ["Path"; "Optional"; "Sequence"; "Union"; "FileClient"]
       else [])
   ++ ["__all__"; "logger"; "copy_vasp_outputs"; "get_largest_relax_extension"])%list.

(** Looking up a name that is neither local nor built in: it is bound in the
    module, or the lookup raises [NameError]. *)
Definition lookup_global (name : string) : result unit :=
  if existsb (String.eqb name) module_globals then Ok tt else Raise (NameError name).

(** Lines 104-138, on the listing of [directory].  Line 132 evaluates
    [Path(directory)] first: the name [Path] is looked up when the line
    runs, before [file_client.glob] is called. *)
Definition get_largest_relax_extension (directory : dir) : result string :=
  match lookup_global "Path" with
  | Raise e => Raise e
  | Ok _ => largest_relax_extension_in (names (glob "*.relax*" directory))
  end.

(** ** The file system and the effects of the file operations *)

(** A directory is addressed by an optional host and a path, taken as already
    resolved ([file_client.abspath]). *)
Definition loc : Type := option string * string.

Definition loc_eqb (a b : loc) : bool :=
  match fst a, fst b with
  | None, None => String.eqb (snd a) (snd b)
  | Some h, Some h' => String.eqb h h' && String.eqb (snd a) (snd b)
  | _, _ => false
  end.

(** The file system: the directory found at each location. *)
Definition world := loc -> dir.

Definition upd (l : loc) (d : dir) (w : world) : world :=
  fun l' => if loc_eqb l l' then d else w l'.

(** An operation reads and changes the file system, and returns or raises;
    what it changed before raising stays changed. *)
Definition M (A : Type) : Type := world -> result A * world.

Definition ret {A : Type} (a : A) : M A := fun w => (Ok a, w).

Definition raise {A : Type} (e : exn) : M A := fun w => (Raise e, w).

Definition bind {A B : Type} (m : M A) (k : A -> M B) : M B :=
  fun w =>
    match m w with
    | (Ok a, w') => k a w'
    | (Raise e, w') => (Raise e, w')
    end.

Notation "x <- m ;; k" := (bind m (fun x => k))
  (at level 61, m at next level, right associativity).
Notation "m ;;; k" := (bind m (fun _ => k))
  (at level 61, right associativity).

Definition listdir (l : loc) : M dir := fun w => (Ok (w l), w).

Definition set_dir (l : loc) (d : dir) : M unit := fun w => (Ok tt, upd l d w).

(** A pure computation that may raise, run as an operation. *)
Definition lift {A : Type} (r : result A) : M A := fun w => (r, w).

Fixpoint for_each {A : Type} (f : A -> M unit) (items : list A) : M unit :=
  match items with
  | [] => ret tt
  | x :: rest => f x ;;; for_each f rest
  end.

(** Files of a directory, by name. *)
Fixpoint lookup (n : string) (d : dir) : option content :=
  match d with
  | [] => None
  | (m, c) :: d' => if String.eqb n m then Some c else lookup n d'
  end.

(** Writing a file replaces the one of that name, or adds an entry. *)
Fixpoint write (n : string) (c : content) (d : dir) : dir :=
  match d with
  | [] => [(n, c)]
  | (m, c') :: d' => if String.eqb n m then (n, c) :: d' else (m, c') :: write n c d'
  end.

Definition remove (n : string) (d : dir) : dir :=
  filter (fun e => negb (String.eqb n (fst e))) d.

(** A Python [dict] with string keys and values: assigning to a key that is
    present keeps the key's place and replaces its value. *)
Definition dict := list (string * string).

Definition dict_comprehension (items : list (string * string)) : dict :=
  fold_left (fun d kv => write (fst kv) (snd kv) d) items [].

(** ** The collaborators and [copy_vasp_outputs] *)

Section Copier.

(** The gzip decompression of a file's bytes (Python's [gzip]). *)
Variable gunzip_data : content -> content.

(** The current working directory of the process: the destination. *)
Variable cwd : loc.

Definition modify_cwd (f : dir -> dir) : M unit :=
  d <- listdir cwd ;; set_dir cwd (f d).

(** Modelled from the spec: the copy of the files matching one pattern, a
    step of [copy_files] below ([atomate2.common.file] is not part of the
    sources at hand).  The matches are written into the current working
    directory, each over a file of its name if there is one; a pattern
    without a match raises unless [allow_missing]. *)
Definition copy_pattern (src : loc) (allow_missing : bool) (pattern : string) : M unit :=
  d <- listdir src ;;
  match glob pattern d with
  | [] => if allow_missing then ret tt else raise (CopyError pattern)
  | files => for_each (fun e => modify_cwd (write (fst e) (snd e))) files
  end.

(** Modelled from the spec: [copy_files] of [atomate2.common.file].
    Section 6: "Copy: given a source directory/host, a list of include
    patterns, and a lenient/strict missing-file flag, copy matches into the
    current destination context.  Strict mode raises on any unmatched
    pattern; lenient mode does not."  The patterns are served in order, and
    nothing is rolled back when a later pattern fails (section 7). *)
Definition copy_files (src : loc) (include_files : list string)
    (allow_missing : bool) : M unit :=
  for_each (copy_pattern src allow_missing) include_files.

(** Modelled from the spec: the decompression of one file of the current
    working directory, a step of [gunzip_files] below: the file [n.gz] is
    replaced by the file [n] holding its decompressed content; a file whose
    name does not end in [.gz] is left as it is. *)
Definition gunzip_file (n : string) : M unit :=
  d <- listdir cwd ;;
  match lookup n d with
  | None => ret tt
  | Some c =>
      if Str.endswith n ".gz"
      then set_dir cwd (write (Str.chop 3 n) (gunzip_data c) (remove n d))
      else ret tt
  end.

(** A name matches one of the patterns. *)
Definition matches_any (patterns : list string) (n : string) : bool :=
  existsb (fun p => fnmatch p n) patterns.

(** Strict mode: the first pattern without a match in [d] raises. *)
Definition check_patterns (mk : string -> exn) (d : dir) (patterns : list string) : M unit :=
  for_each (fun p => match glob p d with
                     | [] => raise (mk p)
                     | _ :: _ => ret tt
                     end) patterns.

(** Modelled from the spec: [gunzip_files] of [atomate2.common.file].
    Section 6: "Decompress: given a list of patterns and a lenient flag,
    gunzip matching files in place at the destination, removing the
    compression suffix."  The files visited are those of the current working
    directory that match one of the patterns, each once, in listing order. *)
Definition gunzip_files (include_files : list string) (allow_missing : bool) : M unit :=
  d <- listdir cwd ;;
  (if allow_missing then ret tt else check_patterns GunzipError d include_files) ;;;
  for_each gunzip_file (filter (matches_any include_files) (names d)).

(** Modelled from the spec: the renaming of one file of the current working
    directory, a step of [rename_files] below; it replaces a file that has
    the new name, and an absent file raises unless [allow_missing]. *)
Definition rename_file (allow_missing : bool) (kv : string * string) : M unit :=
  d <- listdir cwd ;;
  match lookup (fst kv) d with
  | Some c => set_dir cwd (write (snd kv) c (remove (fst kv) d))
  | None => if allow_missing then ret tt else raise (RenameError (fst kv))
  end.

(** Modelled from the spec: [rename_files] of [atomate2.common.file].
    Section 6: "Rename: given a mapping from current name/pattern to target
    name, rename matching files at the destination, with an optional lenient
    flag for tolerating absence."  The entries are served in the mapping's
    order. *)
Definition rename_files (filenames : dict) (allow_missing : bool) : M unit :=
  for_each (rename_file allow_missing) filenames.

(** [[f + relax_ext + "*" for f in files]] *)
Definition suffixed (relax_ext : string) (files : list string) : list string :=
  map (fun f => f ++ relax_ext ++ "*") files.

Definition potcar_message : string := "Could not find POTCAR file to copy.".

(** Lines 24-101 (the two log lines apart). *)
Definition copy_vasp_outputs (src_dir : string) (src_host : option string)
    (additional_vasp_files : list string) (contcar_to_poscar : bool) : M unit :=
  let src : loc := (src_host, src_dir) in
  relax_ext <- (d <- listdir src ;; lift (get_largest_relax_extension d)) ;;
  (* copy required files *)
  let required_files :=
    (["INCAR"; "OUTCAR"; "CONTCAR"; "vasprun.xml"] ++ additional_vasp_files)%list in
  let required_files := suffixed relax_ext required_files in
  copy_files src required_files false ;;;
  (* copy optional files *)
  let optional_files := suffixed relax_ext ["POTCAR"; "POTCAR.spec"; "KPOINTS"] in
  copy_files src optional_files true ;;;
  (* check at least one type of potcar file made it *)
  potcars <- (d <- listdir cwd ;; ret (glob "POTCAR*" d)) ;;
  (if (List.length potcars =? 0)%nat
   then raise (FileNotFoundError potcar_message)
   else ret tt) ;;;
  (* gunzip any VASP files *)
  gunzip_files (required_files ++ optional_files)%list true ;;;
  (* rename files to remove relax extension *)
  (if (String.length relax_ext =? 0)%nat then ret tt
   else
     let all_files := (optional_files ++ required_files)%list in
     let files :=
       dict_comprehension
         (map (fun k => (Str.replace k "*" "", Str.replace k (relax_ext ++ "*") ""))
              all_files) in
     rename_files files true) ;;;
  (if contcar_to_poscar
   then rename_files [("CONTCAR", "POSCAR")] false
   else ret tt).

End Copier.

(** ** The phases of [copy_vasp_outputs]

    The steps of the function body, named so that statements can refer to
    the state between two of them; [copy_vasp_outputs] is their composition
    ([copy_vasp_outputs_phases] below). *)

Definition base_required : list string := ["INCAR"; "OUTCAR"; "CONTCAR"; "vasprun.xml"].

Definition base_optional : list string := ["POTCAR"; "POTCAR.spec"; "KPOINTS"].

Definition required_patterns (relax_ext : string) (additional : list string) : list string :=
  suffixed relax_ext (base_required ++ additional)%list.

Definition optional_patterns (relax_ext : string) : list string :=
  suffixed relax_ext base_optional.

(** The [files] dictionary of line 95. *)
Definition strip_map (relax_ext : string) (additional : list string) : dict :=
  dict_comprehension
    (map (fun k => (Str.replace k "*" "", Str.replace k (relax_ext ++ "*") ""))
         (optional_patterns relax_ext ++ required_patterns relax_ext additional)%list).

(** Lines 82-83. *)
Definition check_potcar (cwd : loc) : M unit :=
  potcars <- (d <- listdir cwd ;; ret (glob "POTCAR*" d)) ;;
  if (List.length potcars =? 0)%nat
  then raise (FileNotFoundError potcar_message)
  else ret tt.

(** Lines 93-96. *)
Definition strip_relax_ext (cwd : loc) (relax_ext : string) (additional : list string) : M unit :=
  if (String.length relax_ext =? 0)%nat then ret tt
  else rename_files cwd (strip_map relax_ext additional) true.

(** Lines 98-99. *)
Definition contcar_rename (cwd : loc) (contcar_to_poscar : bool) : M unit :=
  if contcar_to_poscar
  then rename_files cwd [("CONTCAR", "POSCAR")] false
  else ret tt.

(** Lines 82-99: what follows the two copies. *)
Definition after_copy (gunzip_data : content -> content) (cwd : loc)
    (relax_ext : string) (additional : list string) (contcar_to_poscar : bool) : M unit :=
  check_potcar cwd ;;;
  gunzip_files gunzip_data cwd
    (required_patterns relax_ext additional ++ optional_patterns relax_ext)%list true ;;;
  strip_relax_ext cwd relax_ext additional ;;;
  contcar_rename cwd contcar_to_poscar.

(** Lines 60-99: what follows the resolver. *)
Definition with_extension (gunzip_data : content -> content) (cwd src : loc)
    (relax_ext : string) (additional : list string) (contcar_to_poscar : bool) : M unit :=
  copy_files cwd src (required_patterns relax_ext additional) false ;;;
  copy_files cwd src (optional_patterns relax_ext) true ;;;
  after_copy gunzip_data cwd relax_ext additional contcar_to_poscar.

(** ** Sample file systems

    Concrete directories on which the statements below are exercised. *)

Module Sample.

(** A stand-in for gzip: a compressed file is its data behind a two-byte
    header. *)
Definition gzip (data : content) : content := "GZ" ++ data.

Definition gunzip (bytes : content) : content := Str.drop 2 bytes.

(** The job directory (the destination) and a calculation directory on a
    remote host (the source). *)
Definition job : loc := (None, "/scratch/job").

Definition calc : loc := (Some "cluster", "/data/calc").

Definition world_of (source destination : dir) : world :=
  upd calc source (upd job destination (fun _ => [])).


(** A single calculation, neither suffixed nor compressed, without KPOINTS. *)
Definition static : dir :=
  [ ("INCAR", "incar"); ("OUTCAR", "outcar"); ("CONTCAR", "contcar");
    ("POSCAR", "poscar"); ("vasprun.xml", "vasprun"); ("POTCAR", "potcar") ].

(** The same without any POTCAR file. *)
Definition static_without_potcar : dir := remove "POTCAR" static.

(** The same without OUTCAR. *)
Definition static_without_outcar : dir := remove "OUTCAR" static.


(** Ten relaxations of which only the numbered names matter. *)
Definition ten_relax : dir :=
  [ ("vasprun.xml.relax2.gz", "2"); ("vasprun.xml.relax10.gz", "10");
    ("vasprun.xml.relax9.gz", "9") ].

(** Two spellings of the same relaxation number. *)
Definition two_spellings : dir := [ ("INCAR.relax2", "a"); ("OUTCAR.relax02", "b") ].

(** A name that matches [*.relax*] and carries no number. *)
Definition relaxed_notes : dir := [ ("INCAR", "incar"); ("notes.relaxed", "text") ].

(** The listing of the docstring of [get_largest_relax_extension]. *)
Definition docstring_listing : dir :=
  [ ("vasprun.xml.relax1.gz", gzip "vasprun 1"); ("vasprun.xml.relax2.gz", gzip "vasprun 2") ].

(** A destination whose only POTCAR files are a POTCAR.spec and a
    compressed POTCAR of the second relaxation. *)
Definition with_potcar_variants : dir :=
  [ ("POTCAR.spec", "potcar spec"); ("POTCAR.relax2.gz", gzip "potcar 2") ].

End Sample.

(** ** Notions used in the statements *)

(** A name without the wildcard character. *)
Fixpoint star_free (s : string) : bool :=
  match s with
  | EmptyString => true
  | String c s' => negb (Ascii.eqb c "*") && star_free s'
  end.

(** Membership in a list of names, as a test. *)
Definition inb (m : string) (l : list string) : bool := existsb (String.eqb m) l.

Definition add_uniq (f : string) (l : list string) : list string :=
  if inb f l then l else (l ++ [f])%list.

(** The distinct items of a list, at their first places. *)
Definition uniq (l : list string) : list string :=
  fold_left (fun acc f => add_uniq f acc) l [].

Definition strip_entry (ext f : string) : string * string := (f ++ ext, f).

(** The base names of every file the copier handles. *)
Definition all_names (additional : list string) : list string :=
  (base_optional ++ base_required ++ additional)%list.

(** Two directories with the same files: the same names, with the same
    contents. *)
Definition same_files (d d' : dir) : Prop := forall m, lookup m d = lookup m d'.

(** The characters of a string. *)
Fixpoint chars (s : string) : list ascii :=
  match s with
  | EmptyString => []
  | String c s' => c :: chars s'
  end.

(** The number that a relax extension [.relax<n>] denotes. *)
Definition relax_number (ext : string) : N := Str.int (Str.drop 6 ext).

(** Of two resolved extensions, the one of the later relaxation; no
    extension counts as the earliest, and of two extensions that denote the
    same number the first is kept. *)
Definition later_extension (a b : string) : string :=
  if (String.length a =? 0)%nat then b
  else if (String.length b =? 0)%nat then a
  else if (relax_number a <? relax_number b)%N then b else a.


(** * Properties *)

(** ** Strings *)

Lemma prefix_split (p s : string) :
  String.prefix p s = true -> s = p ++ Str.drop (String.length p) s.
Proof.
  revert s; induction p as [|a p IH]; intros s H; simpl in *.
  - reflexivity.
  - destruct s as [|b s]; simpl in H; [discriminate|].
    destruct (ascii_dec a b) as [->|]; [|discriminate].
    simpl. f_equal. now apply IH.
Qed.

Lemma prefix_of_app (p s : string) : String.prefix p (p ++ s) = true.
Proof.
  induction p as [|a p IH]; simpl.
  - now destruct s.
  - destruct (ascii_dec a a); [assumption|congruence].
Qed.

Lemma drop_app_length (p s : string) : Str.drop (String.length p) (p ++ s) = s.
Proof. induction p; simpl; auto. Qed.

Lemma take_digits_all_digits (s : string) : Str.all_digits (Str.take_digits s) = true.
Proof.
  induction s as [|c s IH]; simpl; [reflexivity|].
  destruct (Str.is_digit c) eqn:E; simpl; [now rewrite E|reflexivity].
Qed.

Lemma length_app (a b : string) :
  String.length (a ++ b) = (String.length a + String.length b)%nat.
Proof. induction a; simpl; auto. Qed.

Lemma app_assoc_str (a b c : string) : (a ++ b) ++ c = a ++ b ++ c.
Proof. induction a; simpl; congruence. Qed.

Lemma app_empty_r (a : string) : a ++ "" = a.
Proof. induction a; simpl; congruence. Qed.

Lemma take_app_length (a b : string) : Str.take (String.length a) (a ++ b) = a.
Proof. induction a; simpl; [now destruct b|congruence]. Qed.

Lemma chop_app (a s : string) : Str.chop (String.length s) (a ++ s) = a.
Proof.
  unfold Str.chop. rewrite length_app.
  replace (String.length a + String.length s - String.length s)%nat
    with (String.length a) by lia.
  apply take_app_length.
Qed.

Lemma app_inv_tail_str (a b s : string) : a ++ s = b ++ s -> a = b.
Proof.
  intros H.
  rewrite <- (chop_app a s), <- (chop_app b s). now rewrite H.
Qed.

Lemma inb_In (m : string) (l : list string) : inb m l = true <-> In m l.
Proof.
  unfold inb. rewrite existsb_exists. split.
  - intros (x & Hx & E). apply String.eqb_eq in E. now subst.
  - intros H. exists m. split; [assumption|apply String.eqb_refl].
Qed.

Lemma inb_false (m : string) (l : list string) : inb m l = false <-> ~ In m l.
Proof.
  rewrite <- inb_In. destruct (inb m l).
  - split; [discriminate|intros H; now contradiction H].
  - split; [intros _; discriminate|reflexivity].
Qed.

Lemma inb_cons (m n : string) (l : list string) :
  inb m (n :: l) = String.eqb m n || inb m l.
Proof. reflexivity. Qed.

Lemma star_free_app (a b : string) : star_free (a ++ b) = star_free a && star_free b.
Proof. induction a as [|c a IH]; simpl; [reflexivity|]. now rewrite IH, andb_assoc. Qed.

Lemma prefix_refl (p : string) : String.prefix p p = true.
Proof. rewrite <- (app_empty_r p) at 2. apply prefix_of_app. Qed.

Lemma prefix_cons (a b : ascii) (p s : string) :
  String.prefix (String a p) (String b s)
  = if ascii_dec a b then String.prefix p s else false.
Proof. reflexivity. Qed.

(** ** The regular expression of the resolver *)

Lemma re_search_relax_cons (c : ascii) (rest : string) :
  re_search_relax (String c rest) =
  if negb (c =? newline)%char && String.prefix "relax" rest
  then match Str.take_digits (Str.drop 5 rest) with
       | EmptyString => re_search_relax rest
       | ds => Some ds
       end
  else re_search_relax rest.
Proof. reflexivity. Qed.

Lemma re_search_relax_digits (name ds : string) :
  re_search_relax name = Some ds -> Str.all_digits ds = true /\ ds <> "".
Proof.
  induction name as [|c rest IH]; [discriminate|].
  rewrite re_search_relax_cons.
  destruct (negb (c =? newline)%char && String.prefix "relax" rest); [|exact IH].
  destruct (Str.take_digits (Str.drop 5 rest)) eqn:E; [exact IH|].
  intros [= <-]. split; [|discriminate].
  rewrite <- E. apply take_digits_all_digits.
Qed.

Lemma take_digits_rest (s : string) :
  s = Str.take_digits s ++ Str.drop (String.length (Str.take_digits s)) s
  /\ Str.take_digits (Str.drop (String.length (Str.take_digits s)) s) = "".
Proof.
  induction s as [|c s [IH1 IH2]]; [now split|].
  simpl Str.take_digits. destruct (Str.is_digit c) eqn:E.
  - simpl. split; [now rewrite <- IH1|exact IH2].
  - simpl. now rewrite E.
Qed.

Lemma take_digits_app (ds post : string) :
  Str.all_digits ds = true -> Str.take_digits post = "" -> Str.take_digits (ds ++ post) = ds.
Proof.
  intros Hd Hp. induction ds as [|c ds IH]; [exact Hp|].
  simpl in Hd. apply andb_true_iff in Hd as [Hc Hd].
  simpl. rewrite Hc. now rewrite (IH Hd).
Qed.

Lemma take_digits_head (d : ascii) (post : string) :
  Str.is_digit d = true -> Str.take_digits (String d post) <> "".
Proof. intros H. simpl. now rewrite H. Qed.

Lemma take_digits_nonempty (s : string) :
  Str.take_digits s <> "" -> exists d post, s = String d post /\ Str.is_digit d = true.
Proof.
  destruct s as [|d post]; [now intros []|].
  simpl. destruct (Str.is_digit d) eqn:E; [|now intros []].
  intros _. now exists d, post.
Qed.

(** X1. [re.search(r".relax(\d+)", name).group(1)] is [ds] exactly when
    [name] reads: some characters, a character other than a newline, [relax],
    the digits [ds] (at least one), and a rest that does not go on with a
    digit (the run of digits is taken whole), and no such match begins
    further left in [name]. *)
Theorem re_search_relax_leftmost_greedy (name ds : string) :
  re_search_relax name = Some ds <->
  exists pre c post,
    name = pre ++ String c ("relax" ++ ds ++ post)
    /\ c <> newline
    /\ ds <> "" /\ Str.all_digits ds = true
    /\ Str.take_digits post = ""
    /\ forall pre' c' d' post',
         name = pre' ++ String c' ("relax" ++ String d' post') ->
         c' <> newline -> Str.is_digit d' = true ->
         (String.length pre <= String.length pre')%nat.
Proof.
  split.
  - revert ds. induction name as [|c0 rest IH]; intros ds; [discriminate|].
    rewrite re_search_relax_cons.
    assert (Later : re_search_relax rest = Some ds ->
              (forall d' post', rest = "relax" ++ String d' post' ->
                                c0 <> newline -> Str.is_digit d' = true -> False) ->
              exists pre c post,
                String c0 rest = pre ++ String c ("relax" ++ ds ++ post)
                /\ c <> newline /\ ds <> "" /\ Str.all_digits ds = true
                /\ Str.take_digits post = ""
                /\ forall pre' c' d' post',
                     String c0 rest = pre' ++ String c' ("relax" ++ String d' post') ->
                     c' <> newline -> Str.is_digit d' = true ->
                     (String.length pre <= String.length pre')%nat).
    { intros H Hhead.
      destruct (IH ds H) as (pre & c & post & E & Hc & Hne & Hd & Hp & Hleft).
      exists (String c0 pre), c, post. repeat split; try assumption.
      - change (String c0 rest = String c0 (pre ++ String c ("relax" ++ ds ++ post))).
        now rewrite <- E.
      - intros pre' c' d' post' E' Hc' Hd'. destruct pre' as [|a pre'].
        + simpl in E'. injection E' as <- E'. exfalso. now apply (Hhead d' post').
        + simpl in E'. injection E' as _ E'. simpl.
          apply le_n_S. now apply (Hleft pre' c' d' post'). }
    destruct (negb (c0 =? newline)%char && String.prefix "relax" rest) eqn:T.
    + apply andb_true_iff in T as [Hc Hp].
      apply negb_true_iff, Ascii.eqb_neq in Hc.
      apply prefix_split in Hp. simpl String.length in Hp.
      destruct (Str.take_digits (Str.drop 5 rest)) as [|d0 ds0] eqn:Td.
      * intros H. apply (Later H). intros d' post' E' _ Hd'.
        rewrite E' in Td. change (Str.drop 5 ("relax" ++ String d' post')) with (String d' post') in Td.
        now apply (take_digits_head d' post' Hd').
      * intros [= <-].
        destruct (take_digits_rest (Str.drop 5 rest)) as [R1 R2]. rewrite Td in R1, R2.
        exists "", c0, (Str.drop (String.length (String d0 ds0)) (Str.drop 5 rest)).
        repeat split.
        -- change ("" ++ ?x) with x. f_equal. rewrite Hp at 1. f_equal. exact R1.
        -- exact Hc.
        -- discriminate.
        -- rewrite <- Td. apply take_digits_all_digits.
        -- exact R2.
        -- intros. simpl. lia.
    + intros H. apply (Later H). intros d' post' E' Hc' _.
      rewrite E' in T. apply Ascii.eqb_neq in Hc'. rewrite Hc' in T. discriminate T.
  - intros (pre & c & post & E & Hc & Hne & Hd & Hp & Hleft).
    revert name E Hleft. induction pre as [|a pre IH]; intros name E Hleft.
    + change (name = String c ("relax" ++ ds ++ post)) in E.
      subst name. rewrite re_search_relax_cons.
      apply Ascii.eqb_neq in Hc. rewrite Hc.
      rewrite (prefix_of_app "relax" (ds ++ post)).
      change 5%nat with (String.length "relax"). rewrite drop_app_length.
      cbn [negb andb].
      rewrite (take_digits_app ds post Hd Hp).
      destruct ds; [congruence|reflexivity].
    + change (name = String a (pre ++ String c ("relax" ++ ds ++ post))) in E.
      subst name. rewrite re_search_relax_cons.
      set (rest := pre ++ String c ("relax" ++ ds ++ post)) in *.
      assert (Go : re_search_relax rest = Some ds).
      { apply IH; [reflexivity|].
        intros pre' c' d' post' E' Hc' Hd'.
        apply le_S_n. apply (Hleft (String a pre') c' d' post'); [|assumption|assumption].
        change (String a rest = String a (pre' ++ String c' ("relax" ++ String d' post'))).
        now rewrite <- E'. }
      destruct (negb (a =? newline)%char && String.prefix "relax" rest) eqn:T; [|exact Go].
      apply andb_true_iff in T as [Ha Hpre].
      apply negb_true_iff, Ascii.eqb_neq in Ha.
      apply prefix_split in Hpre. simpl String.length in Hpre.
      destruct (Str.take_digits (Str.drop 5 rest)) as [|d0 ds0] eqn:Td; [exact Go|].
      exfalso.
      destruct (take_digits_nonempty (Str.drop 5 rest)) as (d' & post' & Ed & Hd');
        [rewrite Td; discriminate|].
      assert (L : (String.length (String a pre) <= String.length "")%nat).
      { apply (Hleft "" a d' post'); [|assumption|assumption].
        change (String a rest = String a ("relax" ++ String d' post')).
        f_equal. rewrite Hpre at 1. now rewrite Ed. }
      simpl in L. lia.
Qed.

(** ** The relax numbers and their maximum (lines 136-137) *)

Lemma relax_numbers_ok (files nums : list string) :
  relax_numbers files = Ok nums <-> map re_search_relax files = map Some nums.
Proof.
  revert nums; induction files as [|f fs IH]; intros nums; simpl.
  - split.
    + now intros [= <-].
    + destruct nums; [reflexivity|discriminate].
  - destruct (re_search_relax f) as [ds|].
    + destruct (relax_numbers fs) as [l|e] eqn:E.
      * split.
        -- intros [= <-]. simpl. f_equal. now apply IH.
        -- destruct nums as [|n nums]; [discriminate|]. simpl. intros [= <- H].
           apply IH in H. now injection H as ->.
      * split; [discriminate|].
        destruct nums as [|n nums]; [discriminate|]. simpl. intros [= _ H].
        apply IH in H. discriminate.
    + split; [discriminate|]. destruct nums; discriminate.
Qed.

Lemma relax_numbers_raises (files : list string) (f : string) :
  In f files -> re_search_relax f = None -> relax_numbers files = Raise AttributeError.
Proof.
  induction files as [|g fs IH]; simpl; [contradiction|].
  intros [->|Hin] Hf.
  - now rewrite Hf.
  - destruct (re_search_relax g); [|reflexivity]. now rewrite (IH Hin Hf).
Qed.

Lemma relax_numbers_In (files nums : list string) (ds : string) :
  relax_numbers files = Ok nums ->
  (In ds nums <-> exists f, In f files /\ re_search_relax f = Some ds).
Proof.
  intros H. apply relax_numbers_ok in H. split.
  - intros Hin. apply (in_map Some) in Hin. rewrite <- H in Hin.
    apply in_map_iff in Hin as (f & Hf & Hin). now exists f.
  - intros (f & Hin & Hf). apply (in_map re_search_relax) in Hin.
    rewrite H, Hf in Hin. apply in_map_iff in Hin as (x & [= ->] & Hx). exact Hx.
Qed.

(** [max] returns an item of the sequence whose key no other key exceeds. *)
Lemma max_from_spec {A : Type} (key : A -> N) (rest : list A) (best : A) :
  In (max_from key best rest) (best :: rest)
  /\ forall x, In x (best :: rest) -> (key x <= key (max_from key best rest))%N.
Proof.
  revert best; induction rest as [|y rest IH]; intros best; simpl.
  - split; [now left|]. intros x [<-|[]]. lia.
  - destruct (N.ltb_spec (key best) (key y)) as [Hlt|Hge].
    + destruct (IH y) as [Hin Hmax]. split.
      * right. exact Hin.
      * intros x [<-|Hx]; [|now apply Hmax].
        specialize (Hmax y (or_introl eq_refl)). lia.
    + destruct (IH best) as [Hin Hmax]. split.
      * destruct Hin as [<-|Hin]; [now left|right; now right].
      * intros x [<-|[<-|Hx]].
        -- apply Hmax. now left.
        -- specialize (Hmax best (or_introl eq_refl)). lia.
        -- apply Hmax. now right.
Qed.

Lemma max_from_In {A : Type} (key : A -> N) (rest : list A) (best : A) :
  In (max_from key best rest) (best :: rest).
Proof. apply max_from_spec. Qed.

Lemma relax_numbers_length (files nums : list string) :
  relax_numbers files = Ok nums -> List.length nums = List.length files.
Proof.
  intros H. apply relax_numbers_ok in H. apply (f_equal (@List.length _)) in H.
  now rewrite !length_map in H.
Qed.

Lemma relax_numbers_error (files : list string) (e : exn) :
  relax_numbers files = Raise e ->
  e = AttributeError /\ exists f, In f files /\ re_search_relax f = None.
Proof.
  induction files as [|f fs IH]; simpl; [discriminate|].
  destruct (re_search_relax f) eqn:Ef.
  - destruct (relax_numbers fs) as [l|e']; [discriminate|].
    intros [= <-]. destruct (IH eq_refl) as [-> (g & Hg & Eg)].
    split; [reflexivity|]. exists g. split; [now right|assumption].
  - intros [= <-]. split; [reflexivity|]. exists f. split; [now left|assumption].
Qed.

Lemma max_from_first {A : Type} (key : A -> N) (rest : list A) (best : A) :
  exists before after,
    best :: rest = (before ++ max_from key best rest :: after)%list
    /\ (forall x, In x before -> (key x < key (max_from key best rest))%N)
    /\ (forall x, In x after -> (key x <= key (max_from key best rest))%N).
Proof.
  revert best; induction rest as [|y rest IH]; intros best.
  - exists [], []. repeat split; intros x [].
  - simpl max_from. destruct (N.ltb_spec (key best) (key y)) as [Hlt|Hge].
    + destruct (IH y) as (before & after & E & Hb & Ha).
      exists (best :: before), after. repeat split.
      * simpl. now rewrite E.
      * intros x [<-|Hx]; [|now apply Hb].
        pose proof (proj2 (max_from_spec key rest y) y (or_introl eq_refl)). lia.
      * exact Ha.
    + destruct (IH best) as (before & after & E & Hb & Ha).
      destruct before as [|b before].
      * simpl in E. injection E as E1 E2.
        exists [], (y :: rest). repeat split.
        -- simpl. now rewrite <- E1.
        -- intros x [].
        -- intros x [<-|Hx].
           ++ rewrite <- E1. exact Hge.
           ++ apply Ha. now rewrite <- E2.
      * simpl in E. injection E as <- E.
        exists (best :: y :: before), after. repeat split.
        -- simpl. do 2 f_equal. exact E.
        -- intros x [<-|[<-|Hx]].
           ++ apply Hb. now left.
           ++ specialize (Hb best (or_introl eq_refl)). lia.
           ++ apply Hb. now right.
        -- exact Ha.
Qed.

Lemma map_Some_In (files nums : list string) (g n : string) :
  map re_search_relax files = map Some nums ->
  In g files -> re_search_relax g = Some n -> In n nums.
Proof.
  intros H Hg Hn. apply (in_map re_search_relax) in Hg. rewrite H, Hn in Hg.
  apply in_map_iff in Hg as (x & [= ->] & Hx). exact Hx.
Qed.

Lemma relax_numbers_app (a b : list string) :
  relax_numbers (a ++ b)%list =
  match relax_numbers a, relax_numbers b with
  | Ok la, Ok lb => Ok (la ++ lb)%list
  | Raise e, _ => Raise e
  | Ok _, Raise e => Raise e
  end.
Proof.
  induction a as [|f a IH]; simpl.
  - now destruct (relax_numbers b).
  - destruct (re_search_relax f) as [ds|].
    + rewrite IH. destruct (relax_numbers a) as [la|e]; [|reflexivity].
      now destruct (relax_numbers b).
    + destruct (relax_numbers b) as [lb|e] eqn:Eb; [reflexivity|].
      destruct (relax_numbers_error b e Eb) as [-> _]. reflexivity.
Qed.

Lemma max_from_app {A : Type} (key : A -> N) (r1 r2 : list A) (best : A) :
  max_from key best (r1 ++ r2)%list = max_from key (max_from key best r1) r2.
Proof.
  revert best; induction r1 as [|x r1 IH]; intros best; [reflexivity|].
  simpl. destruct (key best <? key x)%N; apply IH.
Qed.

Lemma max_from_cons {A : Type} (key : A -> N) (r : list A) (a b : A) :
  max_from key a (b :: r)
  = if (key a <? key (max_from key b r))%N then max_from key b r else a.
Proof.
  revert a b; induction r as [|x r IH]; intros a b; [reflexivity|].
  pose proof (proj2 (max_from_spec key (x :: r) b) b (or_introl eq_refl)) as Hb.
  change (max_from key a (b :: x :: r))
    with (if (key a <? key b)%N then max_from key b (x :: r) else max_from key a (x :: r)).
  destruct (N.ltb_spec (key a) (key b)) as [Hab|Hab].
  - destruct (N.ltb_spec (key a) (key (max_from key b (x :: r)))); [reflexivity|lia].
  - rewrite (IH a x). rewrite (IH b x) in *.
    destruct (N.ltb_spec (key a) (key (max_from key x r))) as [H1|H1].
    + destruct (N.ltb_spec (key b) (key (max_from key x r))) as [H2|H2]; [|lia].
      destruct (N.ltb_spec (key a) (key (max_from key x r))); [reflexivity|lia].
    + destruct (N.ltb_spec (key b) (key (max_from key x r))) as [H2|H2].
      * destruct (N.ltb_spec (key a) (key (max_from key x r))); [lia|reflexivity].
      * destruct (N.ltb_spec (key a) (key b)); [lia|reflexivity].
Qed.

Lemma relax_number_ext (ds : string) : relax_number (".relax" ++ ds) = Str.int ds.
Proof. reflexivity. Qed.

(** ** Lines 133-138, on the names that the glob returned *)

Lemma largest_relax_extension_in_run (files : list string) :
  largest_relax_extension_in files =
  match files with
  | [] => Ok ""
  | f :: fs =>
      match relax_numbers (f :: fs) with
      | Raise e => Raise e
      | Ok [] => Raise ValueError
      | Ok (n :: ns) => Ok (".relax" ++ max_from Str.int n ns)
      end
  end.
Proof.
  unfold largest_relax_extension_in.
  destruct files as [|f fs]; [reflexivity|].
  change (List.length (f :: fs) =? 0)%nat with false. cbv iota.
  destruct (relax_numbers (f :: fs)) as [[|n ns]|e]; reflexivity.
Qed.

(** X2. Lines 133-138 have three outcomes and no other, whatever names the
    glob returned: the empty string, exactly when it returned none; [.relax]
    followed by a non-empty run of decimal digits, when [re.search] finds a
    number in every name; or [AttributeError], when it finds none in some
    name.  In particular [max] is never given an empty sequence. *)
Theorem resolver_outcomes (files : list string) :
  (largest_relax_extension_in files = Ok "" /\ files = [])
  \/ (exists ds, largest_relax_extension_in files = Ok (".relax" ++ ds)
                 /\ ds <> "" /\ Str.all_digits ds = true
                 /\ files <> []
                 /\ forall f, In f files -> re_search_relax f <> None)
  \/ (largest_relax_extension_in files = Raise AttributeError
      /\ exists f, In f files /\ re_search_relax f = None).
Proof.
  rewrite largest_relax_extension_in_run.
  destruct files as [|f fs]; [now left|right].
  destruct (relax_numbers (f :: fs)) as [nums|e] eqn:En.
  - left. destruct nums as [|n ns].
    { apply relax_numbers_length in En. discriminate En. }
    exists (max_from Str.int n ns).
    pose proof (max_from_In Str.int ns n) as Hin.
    apply (relax_numbers_In _ _ _ En) in Hin as (g & _ & Hg).
    apply re_search_relax_digits in Hg as [Hd Hne].
    repeat split; try assumption; [discriminate|].
    intros g' Hg' Hnone. rewrite (relax_numbers_raises _ g' Hg' Hnone) in En. discriminate En.
  - right. apply relax_numbers_error in En as [-> Hf]. now split.
Qed.

(** X3. Of the names that the glob returned, lines 136-138 return the number
    of the first one, in the order of the list, whose number is the largest:
    every name before it has a strictly smaller number, and none after it a
    larger one (Python's [max] keeps the first of several largest items). *)
Theorem resolver_keeps_first_largest (files : list string) (ds : string) :
  largest_relax_extension_in files = Ok (".relax" ++ ds) ->
  exists before f after,
    files = (before ++ f :: after)%list
    /\ re_search_relax f = Some ds
    /\ (forall g n, In g before -> re_search_relax g = Some n -> (Str.int n < Str.int ds)%N)
    /\ (forall g n, In g after -> re_search_relax g = Some n -> (Str.int n <= Str.int ds)%N).
Proof.
  rewrite largest_relax_extension_in_run.
  destruct files as [|f0 fs]; [discriminate|].
  destruct (relax_numbers (f0 :: fs)) as [[|n ns]|e] eqn:En; try discriminate.
  intros [= <-].
  apply relax_numbers_ok in En.
  destruct (max_from_first Str.int ns n) as (nb & na & E & Hb & Ha).
  rewrite E, map_app in En.
  apply map_eq_app in En as (before & tail & Efiles & Eb & Et).
  cbn [map] in Et.
  apply map_eq_cons in Et as (f & after & -> & Ef & Ea).
  exists before, f, after. repeat split; try assumption.
  - intros g m Hg Hm. apply Hb. now apply (map_Some_In before nb g m).
  - intros g m Hg Hm. apply Ha. now apply (map_Some_In after na g m).
Qed.

(** X4. Lines 133-138 on two lists of names put one after the other: an
    error on either is the error on the whole, and otherwise the extension
    is the later of the two, the first one when both denote the same number
    (so names without a relax file change nothing). *)
Theorem resolver_of_two_listings (files1 files2 : list string) :
  largest_relax_extension_in (files1 ++ files2)%list =
  match largest_relax_extension_in files1, largest_relax_extension_in files2 with
  | Ok a, Ok b => Ok (later_extension a b)
  | Raise e, _ => Raise e
  | Ok _, Raise e => Raise e
  end.
Proof.
  rewrite !largest_relax_extension_in_run.
  destruct files1 as [|f1 fs1].
  - simpl app. destruct files2 as [|f2 fs2]; [reflexivity|].
    destruct (relax_numbers (f2 :: fs2)) as [[|n ns]|e]; reflexivity.
  - cbn [app].
    change (f1 :: (fs1 ++ files2))%list with ((f1 :: fs1) ++ files2)%list.
    rewrite relax_numbers_app.
    destruct (relax_numbers (f1 :: fs1)) as [[|n1 ns1]|e1] eqn:En1.
    + apply relax_numbers_length in En1. discriminate En1.
    + destruct files2 as [|f2 fs2].
      * simpl. now rewrite app_nil_r.
      * destruct (relax_numbers (f2 :: fs2)) as [[|n2 ns2]|e2] eqn:En2.
        -- apply relax_numbers_length in En2. discriminate En2.
        -- change ((n1 :: ns1) ++ n2 :: ns2)%list with (n1 :: (ns1 ++ n2 :: ns2))%list.
           cbv iota. rewrite max_from_app, max_from_cons.
           unfold later_extension. rewrite !relax_number_ext.
           change (String.length (".relax" ++ ?x) =? 0)%nat with false. cbv iota.
           now destruct (Str.int (max_from Str.int n1 ns1) <? Str.int (max_from Str.int n2 ns2))%N.
        -- reflexivity.
    + destruct (relax_numbers files2); reflexivity.
Qed.

(** ** The dictionary of renames (line 95) *)

Lemma replace_from_skip_all (k : nat) (old new s : string) :
  (String.length s <= k)%nat -> Str.replace_from k old new s = "".
Proof.
  revert k; induction s as [|c s IH]; intros k H; [reflexivity|].
  simpl in *. destruct k as [|k]; [lia|]. apply IH. lia.
Qed.

Lemma replace_from_miss (old new : string) (c : ascii) (s : string) :
  String.prefix old (String c s) = false ->
  Str.replace_from 0 old new (String c s) = String c (Str.replace_from 0 old new s).
Proof.
  intros H.
  change (Str.replace_from 0 old new (String c s))
    with (if String.prefix old (String c s)
          then new ++ Str.replace_from (String.length old - 1) old new s
          else String c (Str.replace_from 0 old new s)).
  now rewrite H.
Qed.

Lemma replace_from_hit (old new : string) (c : ascii) (s : string) :
  String.prefix old (String c s) = true ->
  Str.replace_from 0 old new (String c s)
  = new ++ Str.replace_from (String.length old - 1) old new s.
Proof.
  intros H.
  change (Str.replace_from 0 old new (String c s))
    with (if String.prefix old (String c s)
          then new ++ Str.replace_from (String.length old - 1) old new s
          else String c (Str.replace_from 0 old new s)).
  now rewrite H.
Qed.

Lemma replace_star (s : string) :
  star_free s = true -> Str.replace (s ++ "*") "*" "" = s.
Proof.
  unfold Str.replace. induction s as [|c s IH]; intros H; [reflexivity|].
  simpl in H. apply andb_true_iff in H as [Hc Hs]. apply negb_true_iff in Hc.
  change (String c s ++ "*") with (String c (s ++ "*")).
  rewrite replace_from_miss; [now rewrite (IH Hs)|].
  rewrite prefix_cons. destruct (ascii_dec "*" c) as [<-|Hne]; [discriminate Hc|reflexivity].
Qed.

Lemma first_star_unique (u v r1 r2 : string) :
  star_free u = true -> star_free v = true ->
  u ++ String "*" r1 = v ++ String "*" r2 -> u = v.
Proof.
  revert v; induction u as [|c u IH]; intros v Hu Hv E.
  - destruct v as [|c' v]; [reflexivity|]. simpl in *. injection E as <- _. discriminate Hv.
  - destruct v as [|c' v]; simpl in *.
    + injection E as -> _. discriminate Hu.
    + injection E as <- E.
      apply andb_true_iff in Hu as [_ Hu]. apply andb_true_iff in Hv as [_ Hv].
      f_equal. now apply IH.
Qed.

Lemma replace_suffix (f ext : string) :
  star_free f = true -> star_free ext = true ->
  Str.replace (f ++ ext ++ "*") (ext ++ "*") "" = f.
Proof.
  intros Hf He. unfold Str.replace. induction f as [|c f IH].
  - destruct (ext ++ "*") as [|c t] eqn:E; [reflexivity|].
    change ("" ++ String c t) with (String c t).
    rewrite replace_from_hit by apply prefix_refl.
    simpl. apply replace_from_skip_all. lia.
  - simpl in Hf. apply andb_true_iff in Hf as [Hc Hf].
    change (String c f ++ ext ++ "*") with (String c (f ++ ext ++ "*")).
    rewrite replace_from_miss; [now rewrite (IH Hf)|].
    destruct (String.prefix (ext ++ "*") (String c (f ++ ext ++ "*"))) eqn:P; [|reflexivity].
    exfalso. apply prefix_split in P.
    rewrite app_assoc_str in P.
    change (String c (f ++ ext ++ "*")) with (String c f ++ ext ++ "*") in P at 1.
    rewrite <- app_assoc_str in P.
    apply first_star_unique in P; [|rewrite star_free_app; simpl; now rewrite Hc, Hf|assumption].
    apply (f_equal String.length) in P. rewrite length_app in P. simpl in P. lia.
Qed.

Lemma eqb_app_tail (a b s : string) : String.eqb (a ++ s) (b ++ s) = String.eqb a b.
Proof.
  destruct (String.eqb_spec a b) as [->|Hne].
  - apply String.eqb_refl.
  - apply String.eqb_neq. intros E. now apply app_inv_tail_str in E.
Qed.

Lemma write_strip_entry (ext f : string) (l : list string) :
  write (f ++ ext) f (map (strip_entry ext) l) = map (strip_entry ext) (add_uniq f l).
Proof.
  induction l as [|x l IH]; [reflexivity|].
  unfold add_uniq in *. rewrite inb_cons.
  cbn [map write]. unfold strip_entry at 1. rewrite eqb_app_tail.
  destruct (String.eqb_spec f x) as [->|Hne]; [reflexivity|].
  rewrite orb_false_l, IH. now destruct (inb f l).
Qed.

Lemma dict_comprehension_strip (ext : string) (fs : list string) :
  dict_comprehension (map (strip_entry ext) fs) = map (strip_entry ext) (uniq fs).
Proof.
  unfold dict_comprehension, uniq.
  assert (G : forall acc,
    fold_left (fun d kv => write (fst kv) (snd kv) d)
      (map (strip_entry ext) fs) (map (strip_entry ext) acc)
    = map (strip_entry ext) (fold_left (fun acc f => add_uniq f acc) fs acc)).
  { induction fs as [|f fs IH]; intros acc; [reflexivity|].
    cbn [map fold_left]. unfold strip_entry at 2 3. cbn [fst snd].
    rewrite write_strip_entry. apply IH. }
  exact (G []).
Qed.

Lemma add_uniq_In (f x : string) (l : list string) :
  In x (add_uniq f l) <-> x = f \/ In x l.
Proof.
  unfold add_uniq. destruct (inb f l) eqn:E.
  - apply inb_In in E. split; [now right|]. intros [->|H]; assumption.
  - rewrite in_app_iff. simpl. split; [intros [H|[<-|[]]]; auto|intros [->|H]; auto].
Qed.

Lemma add_uniq_NoDup (f : string) (l : list string) : NoDup l -> NoDup (add_uniq f l).
Proof.
  unfold add_uniq. intros H. destruct (inb f l) eqn:E; [assumption|].
  apply inb_false in E. apply NoDup_app; [assumption| |].
  - constructor; [intros []|constructor].
  - intros x Hx [<-|[]]. contradiction.
Qed.

Lemma uniq_In (x : string) (l : list string) : In x (uniq l) <-> In x l.
Proof.
  unfold uniq.
  assert (G : forall acc, In x (fold_left (fun acc f => add_uniq f acc) l acc)
                          <-> In x acc \/ In x l).
  { induction l as [|f l IH]; intros acc; simpl; [tauto|].
    rewrite IH, add_uniq_In. intuition. }
  rewrite G. simpl. tauto.
Qed.

Lemma uniq_NoDup (l : list string) : NoDup (uniq l).
Proof.
  unfold uniq.
  assert (G : forall acc, NoDup acc -> NoDup (fold_left (fun acc f => add_uniq f acc) l acc)).
  { induction l as [|f l IH]; intros acc H; simpl; [assumption|].
    apply IH. now apply add_uniq_NoDup. }
  apply G. constructor.
Qed.

Lemma suffixed_app (ext : string) (a b : list string) :
  suffixed ext (a ++ b)%list = (suffixed ext a ++ suffixed ext b)%list.
Proof. unfold suffixed. apply map_app. Qed.

(** With names and an extension free of wildcards, line 95 maps each name
    with the extension to the name without it. *)
Lemma strip_map_entries (ext : string) (additional : list string) :
  star_free ext = true ->
  (forall f, In f additional -> star_free f = true) ->
  strip_map ext additional = map (strip_entry ext) (uniq (all_names additional)).
Proof.
  intros He Ha. unfold strip_map, optional_patterns, required_patterns.
  rewrite <- suffixed_app. fold (all_names additional).
  rewrite <- dict_comprehension_strip. f_equal.
  unfold suffixed. rewrite map_map. apply map_ext_in. intros f Hf.
  assert (Hsf : star_free f = true).
  { unfold all_names in Hf. rewrite !in_app_iff in Hf.
    destruct Hf as [Hf|[Hf|Hf]]; [| |now apply Ha];
      simpl in Hf; repeat (destruct Hf as [<-|Hf]; [reflexivity|]); contradiction. }
  unfold strip_entry. f_equal.
  - rewrite <- app_assoc_str. rewrite replace_star; [reflexivity|].
    now rewrite star_free_app, Hsf, He.
  - now apply replace_suffix.
Qed.

(** X6. With an extension and additional names free of wildcards, the
    dictionary of renames built on line 95 has one entry for each base name
    (a name listed twice gives one entry), and the entry of the name [v] is
    [v + relax_ext] to be renamed [v]: taking [relax_ext + "*"] out of a
    pattern gives back the name the pattern was built from. *)
Theorem rename_dictionary_entries (relax_ext : string) (additional : list string) :
  star_free relax_ext = true ->
  (forall f, In f additional -> star_free f = true) ->
  NoDup (map fst (strip_map relax_ext additional))
  /\ forall k v, In (k, v) (strip_map relax_ext additional)
                 <-> In v (all_names additional) /\ k = v ++ relax_ext.
Proof.
  intros He Ha. rewrite (strip_map_entries relax_ext additional He Ha). split.
  - rewrite map_map. apply NoDup_map_NoDup_ForallPairs; [|apply uniq_NoDup].
    intros a b _ _ E. cbn [strip_entry fst] in E. now apply app_inv_tail_str in E.
  - intros k v. rewrite in_map_iff. split.
    + intros (f & E & Hf). unfold strip_entry in E. injection E as <- <-.
      split; [exact (proj1 (uniq_In _ _) Hf)|reflexivity].
    + intros [Hv ->]. exists v. split; [reflexivity|exact (proj2 (uniq_In _ _) Hv)].
Qed.

(** ** The file system *)








Lemma glob_names (p : string) (d : dir) :
  names (glob p d) = filter (fnmatch p) (names d).
Proof.
  unfold glob, names. induction d as [|e d IH]; simpl; [reflexivity|].
  destruct (fnmatch p (fst e)); simpl; now rewrite IH.
Qed.

Lemma glob_nil (p : string) (d : dir) :
  glob p d = [] <-> forall n, In n (names d) -> fnmatch p n = false.
Proof.
  split.
  - intros H n Hn. destruct (fnmatch p n) eqn:E; [|reflexivity].
    assert (Hin : In n (names (glob p d))).
    { rewrite glob_names. apply filter_In. now split. }
    rewrite H in Hin. contradiction.
  - intros H. destruct (glob p d) as [|e l] eqn:E; [reflexivity|].
    assert (Hin : In (fst e) (names (glob p d))) by (rewrite E; now left).
    rewrite glob_names in Hin. apply filter_In in Hin as [Hin Hm].
    rewrite (H _ Hin) in Hm. discriminate.
Qed.

(** ** Patterns *)

Lemma match_items_star (n : string) : match_items [Star] n = true.
Proof. induction n as [|c n IH]; [reflexivity|]. simpl in *. exact IH. Qed.

(** A pattern made of plain characters and a trailing [*] matches the names
    that start with those characters. *)
Lemma match_items_literal_star (lit n : string) :
  match_items (map Lit (chars lit) ++ [Star])%list n = String.prefix lit n.
Proof.
  revert n; induction lit as [|a lit IH]; intros n.
  - cbn [chars map app]. rewrite match_items_star. now destruct n.
  - cbn [chars map app]. destruct n as [|c n]; [reflexivity|].
    cbn [match_items]. simpl String.prefix. rewrite (IH n).
    destruct (ascii_dec a c) as [->|Hne].
    + now rewrite Ascii.eqb_refl.
    + apply Ascii.eqb_neq in Hne. now rewrite Hne.
Qed.

Lemma fnmatch_potcar (n : string) : fnmatch "POTCAR*" n = Str.startswith n "POTCAR".
Proof. exact (match_items_literal_star "POTCAR" n). Qed.

(** ** The copier *)

Section CopierProperties.

Variable gunzip_data : content -> content.
Variable cwd : loc.

(** *** The steps of the body *)

Lemma copy_vasp_outputs_phases (src_dir : string) (src_host : option string)
    (additional : list string) (c2p : bool) (w : world) :
  copy_vasp_outputs gunzip_data cwd src_dir src_host additional c2p w =
  match get_largest_relax_extension (w (src_host, src_dir)) with
  | Ok relax_ext =>
      with_extension gunzip_data cwd (src_host, src_dir) relax_ext additional c2p w
  | Raise e => (Raise e, w)
  end.
Proof.
  unfold copy_vasp_outputs, with_extension, after_copy, check_potcar,
    strip_relax_ext, contcar_rename, strip_map, required_patterns,
    optional_patterns, base_required, base_optional.
  unfold bind at 1. unfold bind at 1. unfold listdir, lift.
  destruct (get_largest_relax_extension (w (src_host, src_dir))); reflexivity.
Qed.




Lemma check_potcar_run (w : world) :
  check_potcar cwd w =
  match glob "POTCAR*" (w cwd) with
  | [] => (Raise (FileNotFoundError potcar_message), w)
  | _ :: _ => (Ok tt, w)
  end.
Proof.
  unfold check_potcar, listdir, ret. unfold bind.
  destruct (glob "POTCAR*" (w cwd)); reflexivity.
Qed.



(** *** The calls as the module stands *)

(** X13. As the module stands, every call of the two functions ends at
    line 132: [Path] is imported only under [typing.TYPE_CHECKING] and is not
    bound when the line runs.  [get_largest_relax_extension] raises
    [NameError] on every directory, before the listing is looked at, and
    [copy_vasp_outputs], which calls it first (line 57), raises the same
    error and leaves every directory as it was. *)
Theorem every_call_raises_name_error :
  (forall d, get_largest_relax_extension d = Raise (NameError "Path"))
  /\ forall src_dir src_host additional c2p w,
       copy_vasp_outputs gunzip_data cwd src_dir src_host additional c2p w
       = (Raise (NameError "Path"), w).
Proof.
  split; [reflexivity|]. intros. rewrite copy_vasp_outputs_phases. reflexivity.
Qed.

(** C7. Every invocation of [copy_vasp_outputs] leaves the source directory
    as it found it, and every other directory too: the call ends in the
    resolver (line 57), before any file operation. *)
Theorem copy_vasp_outputs_leaves_the_source (src_dir : string) (src_host : option string)
    (additional : list string) (c2p : bool) (w : world) :
  snd (copy_vasp_outputs gunzip_data cwd src_dir src_host additional c2p w)
      (src_host, src_dir)
  = w (src_host, src_dir)
  /\ forall l, snd (copy_vasp_outputs gunzip_data cwd src_dir src_host additional c2p w) l = w l.
Proof. rewrite copy_vasp_outputs_phases. split; reflexivity. Qed.

(** C8. Run a second time with the same arguments, [copy_vasp_outputs] ends
    as the first time and leaves the destination with the same files, names
    and contents, as one run. *)
Theorem copy_vasp_outputs_twice (src_dir : string) (src_host : option string)
    (additional : list string) (c2p : bool) (w : world) :
  fst (copy_vasp_outputs gunzip_data cwd src_dir src_host additional c2p
         (snd (copy_vasp_outputs gunzip_data cwd src_dir src_host additional c2p w)))
  = fst (copy_vasp_outputs gunzip_data cwd src_dir src_host additional c2p w)
  /\ same_files
       (snd (copy_vasp_outputs gunzip_data cwd src_dir src_host additional c2p
               (snd (copy_vasp_outputs gunzip_data cwd src_dir src_host additional c2p w)))
            cwd)
       (snd (copy_vasp_outputs gunzip_data cwd src_dir src_host additional c2p w) cwd).
Proof.
  rewrite (copy_vasp_outputs_phases src_dir src_host additional c2p w). cbn [fst snd].
  rewrite copy_vasp_outputs_phases. split; [reflexivity|]. intros m. reflexivity.
Qed.

(** *** The POTCAR check (lines 82-83) and the final rename (lines 98-99) *)

(** C9. The POTCAR check is passed by any file of the destination whose name
    starts with [POTCAR] ([POTCAR.spec], [POTCAR.relax2.gz], ...): on a
    destination that holds such a file, lines 82-83 do not raise, and no call
    of [copy_vasp_outputs] raises the missing-POTCAR error. *)
Theorem potcar_check_accepts_any_potcar_name (w : world) (n : string) :
  In n (names (w cwd)) ->
  Str.startswith n "POTCAR" = true ->
  check_potcar cwd w = (Ok tt, w)
  /\ forall src_dir src_host additional c2p,
       fst (copy_vasp_outputs gunzip_data cwd src_dir src_host additional c2p w)
       <> Raise (FileNotFoundError potcar_message).
Proof.
  intros Hn Hp. split.
  - rewrite check_potcar_run.
    destruct (glob "POTCAR*" (w cwd)) as [|e l] eqn:G; [|reflexivity].
    exfalso. rewrite glob_nil in G. specialize (G n Hn).
    rewrite fnmatch_potcar in G. congruence.
  - intros src_dir src_host additional c2p. rewrite copy_vasp_outputs_phases. discriminate.
Qed.


End CopierProperties.

(** ** The calls on the sample file systems *)

(** C1. On the listing of the docstring, and on a listing whose largest
    number has two digits, [get_largest_relax_extension] raises [NameError]
    at line 132 instead of returning the extension that lines 133-138 give
    for the names in them ([.relax2] and [.relax10]). *)
Theorem resolver_raises_on_numbered_files :
  get_largest_relax_extension Sample.docstring_listing = Raise (NameError "Path")
  /\ get_largest_relax_extension Sample.ten_relax = Raise (NameError "Path")
  /\ largest_relax_extension_in (names Sample.docstring_listing) = Ok ".relax2"
  /\ largest_relax_extension_in (names Sample.ten_relax) = Ok ".relax10".
Proof. repeat split. Qed.

(** C2. On a directory without any relax file, [get_largest_relax_extension]
    raises [NameError] at line 132 instead of returning the empty string that
    lines 133-134 give for an empty list. *)
Theorem resolver_raises_without_relax_files :
  get_largest_relax_extension Sample.static = Raise (NameError "Path")
  /\ glob "*.relax*" Sample.static = []
  /\ largest_relax_extension_in [] = Ok "".
Proof. repeat split. Qed.

(** C5. On a directory with a file that matches [*.relax*] and has no number
    after [.relax], [get_largest_relax_extension] raises [NameError] at line
    132, as on any directory, and not the error that line 136 raises for the
    name of that file. *)
Theorem resolver_raises_name_error_on_relaxed_notes :
  get_largest_relax_extension Sample.relaxed_notes = Raise (NameError "Path")
  /\ get_largest_relax_extension Sample.static = Raise (NameError "Path")
  /\ largest_relax_extension_in (names (glob "*.relax*" Sample.relaxed_notes))
     = Raise AttributeError.
Proof. repeat split. Qed.

(** C3. From a source with every required file and no POTCAR file, into an
    empty destination, [copy_vasp_outputs] raises the [NameError] of line 132
    and copies nothing; the missing-POTCAR error of line 83 is what the check
    of lines 82-83 raises on that destination, and the call does not come to
    it. *)
Theorem copy_without_potcar_raises_name_error :
  copy_vasp_outputs Sample.gunzip Sample.job "/data/calc" (Some "cluster") [] true
    (Sample.world_of Sample.static_without_potcar [])
  = (Raise (NameError "Path"), Sample.world_of Sample.static_without_potcar [])
  /\ fst (check_potcar Sample.job (Sample.world_of Sample.static_without_potcar []))
     = Raise (FileNotFoundError potcar_message).
Proof. split; reflexivity. Qed.

(** C4. From a complete source without KPOINTS, [copy_vasp_outputs] raises
    (the [NameError] of line 132), and from a source without OUTCAR it raises
    the same error, not that of a failed copy. *)
Theorem copy_without_kpoints_raises_name_error :
  lookup "KPOINTS" Sample.static = None
  /\ copy_vasp_outputs Sample.gunzip Sample.job "/data/calc" (Some "cluster") [] true
       (Sample.world_of Sample.static [])
     = (Raise (NameError "Path"), Sample.world_of Sample.static [])
  /\ copy_vasp_outputs Sample.gunzip Sample.job "/data/calc" (Some "cluster") [] true
       (Sample.world_of Sample.static_without_outcar [])
     = (Raise (NameError "Path"), Sample.world_of Sample.static_without_outcar []).
Proof. repeat split. Qed.


(** ** The statements on the sample file systems *)

Lemma potcar_variants_pass_the_check :
  check_potcar Sample.job (Sample.world_of Sample.static Sample.with_potcar_variants)
  = (Ok tt, Sample.world_of Sample.static Sample.with_potcar_variants)
  /\ forall src_dir src_host additional c2p,
       fst (copy_vasp_outputs Sample.gunzip Sample.job src_dir src_host additional c2p
              (Sample.world_of Sample.static Sample.with_potcar_variants))
       <> Raise (FileNotFoundError potcar_message).
Proof.
  apply (potcar_check_accepts_any_potcar_name Sample.gunzip Sample.job
           (Sample.world_of Sample.static Sample.with_potcar_variants) "POTCAR.relax2.gz").
  - right. now left.
  - reflexivity.
Defined.


Lemma first_spelling_wins_on_two_spellings :
  exists before f after,
    names Sample.two_spellings = (before ++ f :: after)%list
    /\ re_search_relax f = Some "2"
    /\ (forall g n, In g before -> re_search_relax g = Some n -> (Str.int n < Str.int "2")%N)
    /\ (forall g n, In g after -> re_search_relax g = Some n -> (Str.int n <= Str.int "2")%N).
Proof.
  apply (resolver_keeps_first_largest (names Sample.two_spellings) "2"). reflexivity.
Defined.

Lemma rename_dictionary_with_wavecar :
  NoDup (map fst (strip_map ".relax2" ["WAVECAR"]))
  /\ forall k v, In (k, v) (strip_map ".relax2" ["WAVECAR"])
                 <-> In v (all_names ["WAVECAR"]) /\ k = v ++ ".relax2".
Proof.
  apply (rename_dictionary_entries ".relax2" ["WAVECAR"]).
  - reflexivity.
  - intros f [<-|[]]. reflexivity.
Defined.
